(** * Arc Raiders recipe calculator: the requirement-resolution core

    A shallow embedding of [RecipeCalculator] (flask_app.py) and of the
    [/api/expand] endpoint built on it, followed by the properties the
    specification states about them.

    Python values are modelled as follows.
    - [str] is [string]; [s.endswith(t)] and the slice [s[:-n]] are written
      out over [String.length] and [substring].
    - [int] is [Z] (Python integers are unbounded).
    - A [dict] that is only looked up or compared ([self.items], the
      [defaultdict(int)] of requirements, the quantity mappings) is a
      [gmap]: equality of [gmap]s is equality of Python dicts.  A loop over
      [d.items()] is [map_fold]; every loop of this program only adds
      integers into a [defaultdict], so its result does not depend on the
      order of the iteration.
    - The two dict literals that are scanned for the first matching suffix
      ([upgrade_map], [upgrade_levels]) are association lists in the order
      they are written, because there the order of the scan matters. *)

From Stdlib Require Import ZArith String Ascii.
From Stdlib Require Import Sorted.
From stdpp Require Import gmap strings list fin_maps.

Local Open Scope Z_scope.

(** ** Python string primitives *)

Module Py.

(** [s.endswith(suffix)]: the last [len(suffix)] characters of [s] exist
    and are [suffix]. *)
Definition endswith (s suffix : string) : bool :=
  let n := String.length s in
  let m := String.length suffix in
  bool_decide (m ≤ n)%nat && String.eqb (substring (n - m) m s) suffix.

(** [s[:-n]]: all but the last [n] characters; [s[:-0]] is [s[:0]], the
    empty string, and the slice is empty when [n] exceeds [len(s)]. *)
Definition drop_last (s : string) (n : nat) : string :=
  match n with
  | O => ""%string
  | _ => substring 0 (String.length s - n) s
  end.

(** Truthiness of a [str]: non-empty. *)
Definition str_truthy (s : string) : bool :=
  match s with
  | EmptyString => false
  | String _ _ => true
  end.

End Py.

(** ** Upgrade tier resolver *)

(** The first entry of a suffix table, in the order of the table, whose key
    ends [item_id]: the [for ... in table.items(): if item_id.endswith(...)]
    scans of the source. *)
Fixpoint first_suffix {A} (item_id : string) (table : list (string * A))
  : option (string * A) :=
  match table with
  | [] => None
  | (suffix, v) :: rest =>
      if Py.endswith item_id suffix then Some (suffix, v)
      else first_suffix item_id rest
  end.

Definition upgrade_map : list (string * string) :=
  [ ("_iv", "_iii"); ("_iii", "_ii"); ("_ii", "_i") ]%string.

Definition get_previous_upgrade_level (item_id : string) : option string :=
  match first_suffix item_id upgrade_map with
  | Some (current, previous) =>
      Some (Py.drop_last item_id (String.length current) +:+ previous)
  | None => None
  end.

Definition upgrade_levels : list (string * string) :=
  [ ("_i", "I"); ("_ii", "II"); ("_iii", "III"); ("_iv", "IV") ]%string.

(** The dict [get_weapon_upgrade_info] returns: either only
    [{'is_weapon_upgrade': False}], or the four keys of an upgrade. *)
Inductive weapon_info : Type :=
  | NotWeaponUpgrade
  | WeaponUpgrade (base_name upgrade_level : string)
                  (previous_level : option string).

Definition get_weapon_upgrade_info (item_id : string) (is_weapon : bool)
  : weapon_info :=
  if negb is_weapon then NotWeaponUpgrade
  else
    match first_suffix item_id upgrade_levels with
    | Some (suffix, roman) =>
        let base_name := Py.drop_last item_id (String.length suffix) in
        WeaponUpgrade base_name roman
          (if negb (String.eqb suffix "_i") then Some roman else None)
    | None => NotWeaponUpgrade
    end.

(** ** Item catalog *)

(** The [name] field of an item record: a plain string, or a mapping from
    language code to string. *)
Inductive name_data : Type :=
  | NameStr (s : string)
  | NameDict (d : gmap string string).

(** An item record as [load_items] stores it, with the fields the core
    reads.  A field that is absent from the JSON object is [None].  Every
    stored record holds its non-empty ['id'] (the key it is stored under), so
    as a Python dict it is never empty, hence never falsy. *)
Record item : Type := Item {
  name : option name_data;
  type : option string;
  rarity : option string;
  imageFilename : option string;
  recipe : option (gmap string Z);
  upgradeCost : option (gmap string Z)
}.

(** [{}], the default of [self.items.get(item_id, {})]. *)
Definition empty_item : item :=
  {| name := None; type := None; rarity := None; imageFilename := None;
     recipe := None; upgradeCost := None |}.

(** ['k' in item and item['k']] for a mapping-valued field: the mapping when
    it is present and non-empty. *)
Definition populated (field : option (gmap string Z))
  : option (gmap string Z) :=
  match field with
  | Some m => if decide (m = ∅) then None else Some m
  | None => None
  end.

Section Calculator.

(** [self.items] *)
Variable items : gmap string item.

Definition is_base_resource (item_id : string) : bool :=
  match items !! item_id with
  | None => true
  | Some item =>
      let has_recipe := bool_decide (is_Some (populated (recipe item))) in
      let has_upgrade_cost :=
        bool_decide (is_Some (populated (upgradeCost item))) in
      negb (has_recipe || has_upgrade_cost)
  end.

(** ** Requirement expander *)

(** [requirements[key] += amount] on a [defaultdict(int)]. *)
Definition add_to (key : string) (amount : Z) (requirements : gmap string Z)
  : gmap string Z :=
  <[key := default 0 (requirements !! key) + amount]> requirements.

(** [for ingredient_id, ingredient_qty in costs.items():
       requirements[ingredient_id] += ingredient_qty * quantity] *)
Definition add_costs (costs : gmap string Z) (quantity : Z)
    (requirements : gmap string Z) : gmap string Z :=
  map_fold
    (λ ingredient_id ingredient_qty req,
       add_to ingredient_id (ingredient_qty * quantity) req)
    requirements costs.

(** The body of the loop of [get_direct_requirements], for one entry of
    [selected_items]. *)
Definition add_item (item_id : string) (quantity : Z)
    (requirements : gmap string Z) : gmap string Z :=
  match items !! item_id with
  | None => requirements
  | Some item =>
      match populated (upgradeCost item) with
      | Some upgrade_cost =>
          let requirements := add_costs upgrade_cost quantity requirements in
          match get_previous_upgrade_level item_id with
          | Some previous_level =>
              if Py.str_truthy previous_level
              then add_to previous_level quantity requirements
              else requirements
          | None => requirements
          end
      | None =>
          match populated (recipe item) with
          | Some recipe => add_costs recipe quantity requirements
          | None => requirements
          end
      end
  end.

Definition get_direct_requirements (selected_items : gmap string Z)
  : gmap string Z :=
  map_fold add_item ∅ selected_items.

(** ** Display info resolver *)

(** The dict [get_item_info] returns.  [info_upgrade] holds
    [(upgrade_level, required_level)] when the keys ['weapon_upgrade'],
    ['upgrade_level'] and ['required_level'] are set. *)
Record item_info : Type := ItemInfo {
  info_id : string;
  info_name : string;
  info_image : string;
  info_rarity : string;
  info_type : string;
  info_upgrade : option (string * string)
}.

Definition level_map : gmap string string :=
  list_to_map [ ("II", "I"); ("III", "II"); ("IV", "III") ]%string.

(** [item.get('type', 'Unknown') != 'Modification'] *)
Definition weapon_eligible (item : item) : bool :=
  negb (String.eqb (default "Unknown"%string (type item)) "Modification").

Definition resolve_image (item_id : string) (item : item)
    (weapon_info : weapon_info) : string :=
  let imageFilename := default ""%string (imageFilename item) in
  if negb (Nat.eqb (String.length imageFilename) 0)
  then "static/images/" +:+ imageFilename
  else
    match weapon_info with
    | WeaponUpgrade base_name _ _ =>
        "static/images/" +:+ base_name +:+ ".png"
    | NotWeaponUpgrade => "static/images/" +:+ item_id +:+ ".png"
    end.

Definition resolve_name (item_id : string) (item : item) : string :=
  match default (NameStr item_id) (name item) with
  | NameDict d => default item_id (d !! "en"%string)
  | NameStr s => s
  end.

Definition get_item_info (item_id : string) : item_info :=
  let item := default empty_item (items !! item_id) in
  let weapon_info :=
    get_weapon_upgrade_info item_id (weapon_eligible item) in
  {| info_id := item_id;
     info_name := resolve_name item_id item;
     info_image := resolve_image item_id item weapon_info;
     info_rarity := default "Common"%string (rarity item);
     info_type := default "Unknown"%string (type item);
     info_upgrade :=
       match weapon_info with
       | WeaponUpgrade _ upgrade_level _ =>
           if negb (String.eqb upgrade_level "I")
           then Some (upgrade_level,
                      default "I"%string (level_map !! upgrade_level))
           else None
       | NotWeaponUpgrade => None
       end |}.

(** ** The single-item expansion endpoint *)

(** One line of the endpoint's result: the display record with the keys
    ['quantity'] and ['can_expand'] added. *)
Record requirement_line : Type := RequirementLine {
  line_info : item_info;
  line_quantity : Z;
  line_can_expand : bool
}.

(** [sorted(l, key=...)] for string keys: a stable insertion sort; strings
    compare character by character. *)
Fixpoint insert_sorted {A} (key : A → string) (x : A) (l : list A)
  : list A :=
  match l with
  | [] => [x]
  | y :: l' =>
      if String.leb (key x) (key y) then x :: y :: l'
      else y :: insert_sorted key x l'
  end.

Definition sorted {A} (key : A → string) (l : list A) : list A :=
  foldr (insert_sorted key) [] l.

(** The JSON body of [request]: the keys the endpoint reads. *)
Record expand_request : Type := ExpandRequest {
  req_item_id : option string;
  req_quantity : option Z
}.

Inductive response_body : Type :=
  | ErrorBody (error : string)
  | ResultBody (result : list requirement_line).

(** A Flask response: [jsonify(body), status]; the status is 200 when the
    view returns the body alone. *)
Record response : Type := Response {
  body : response_body;
  status : Z
}.

(** [if not item_id]: the key is absent, or holds the empty string. *)
Definition supplied (item_id : option string) : option string :=
  match item_id with
  | Some s => if Py.str_truthy s then Some s else None
  | None => None
  end.

(** The view behind [/api/expand].  The lines are sorted by display name;
    lines with equal names keep the order of [map_to_list], which need not
    be the insertion order of the Python dict. *)
Definition expand_item (data : expand_request) : response :=
  let quantity := default 1 (req_quantity data) in
  match supplied (req_item_id data) with
  | None => {| body := ErrorBody "item_id required"; status := 400 |}
  | Some item_id =>
      let requirements :=
        get_direct_requirements {[ item_id := quantity ]} in
      let result :=
        (λ '(req_id, req_qty),
           {| line_info := get_item_info req_id;
              line_quantity := req_qty;
              line_can_expand := negb (is_base_resource req_id) |})
        <$> sorted (λ x, info_name (get_item_info x.1))
                   (map_to_list requirements) in
      {| body := ResultBody result; status := 200 |}
  end.

End Calculator.

(** ** Vocabulary of the statements *)

(** The characters of a string, last one first. *)
Definition rev_chars (s : string) : list ascii :=
  reverse (list_ascii_of_string s).

(** The entry-wise sum of two requirement mappings: a key of either is a key
    of the sum, and a key of both holds the sum of the two quantities. *)
Definition req_sum (a b : gmap string Z) : gmap string Z :=
  union_with (λ x y, Some (x + y)) a b.

(** A record with only a recipe, and one with only an upgrade cost. *)
Definition crafted (recipe : gmap string Z) : item :=
  {| name := None; type := None; rarity := None; imageFilename := None;
     recipe := Some recipe; upgradeCost := None |}.

Definition upgraded (recipe : option (gmap string Z))
    (upgradeCost : gmap string Z) : item :=
  {| name := None; type := None; rarity := None; imageFilename := None;
     recipe := recipe; upgradeCost := Some upgradeCost |}.

(** The catalog of the specification's end-to-end scenario. *)
Definition carpentry : gmap string item :=
  {[ "wood"%string := empty_item;
     "plank"%string := crafted {[ "wood"%string := 2 ]};
     "table"%string := crafted {[ "plank"%string := 4 ]} ]}.

(** A catalog with a third-tier weapon whose record holds both an upgrade
    cost and a recipe. *)
Definition armory : gmap string item :=
  {[ "weapon_iii"%string :=
       upgraded (Some {[ "scrap"%string := 5 ]})
                {[ "mat_a"%string := 3; "mat_b"%string := 1 ]} ]}.


(** A record with only a name. *)
Definition named (n : name_data) : item :=
  {| name := Some n; type := None; rarity := None; imageFilename := None;
     recipe := None; upgradeCost := None |}.

(** A catalog with a name stored as a mapping, a name stored as a string,
    and a second-tier weapon with neither a name nor an image. *)
Definition showroom : gmap string item :=
  {[ "rifle"%string :=
       named (NameDict {[ "en"%string := "Rifle"%string;
                          "fr"%string := "Fusil"%string ]});
     "carbine"%string := named (NameStr "Rifle");
     "rifle_ii"%string := empty_item ]}.

(** ** Catalog loading and the other endpoints *)

(** [load_items], over the parsed JSON files in the order [glob] yields
    them: each file is the value of its ['id'] key, when it has one, and the
    fields the core reads.  A file is stored under its id when the id is
    truthy; a later file replaces an earlier one with the same id. *)
Definition load_items (files : list (option string * item))
  : gmap string item :=
  foldl
    (λ items '(item_id, item_data),
       match supplied item_id with
       | Some item_id => <[item_id := item_data]> items
       | None => items
       end)
    ∅ files.

(** One entry of the list [/api/items] returns.  ['has_recipe'] holds the
    value of ['recipe' in item_data and item_data['recipe']]: [False] when
    the key is absent ([None] here), the stored mapping otherwise. *)
Record listed_item : Type := ListedItem {
  listed_id : string;
  listed_name : string;
  listed_image : string;
  listed_rarity : string;
  listed_type : string;
  listed_has_recipe : option (gmap string Z)
}.

(** ['type' in item_data and item_data['type'] != 'Modification'] *)
Definition listing_eligible (item_data : item) : bool :=
  match type item_data with
  | Some t => negb (String.eqb t "Modification")
  | None => false
  end.

Section Endpoints.

Variable items : gmap string item.

(** The view behind [/api/calculate]; [data_items] is
    [data.get('items')].  Lines with equal names keep the order of
    [map_to_list], as in [expand_item]. *)
Definition calculate_resources (data_items : option (gmap string Z))
  : response :=
  let selected_items := default ∅ data_items in
  let requirements := get_direct_requirements items selected_items in
  let result :=
    (λ '(item_id, quantity),
       {| line_info := get_item_info items item_id;
          line_quantity := quantity;
          line_can_expand := negb (is_base_resource items item_id) |})
    <$> sorted (λ x, info_name (get_item_info items x.1))
               (map_to_list requirements) in
  {| body := ResultBody result; status := 200 |}.

(** [str.lower], which the listing applies to the names it sorts by. *)
Variable lower : string → string.

(** The body of the loop of [get_items]: the entry for one catalog record,
    or [None] where the loop [continue]s. *)
Definition list_item (item_id : string) (item_data : item)
  : option listed_item :=
  let has_recipe := populated (recipe item_data) in
  let has_upgrade_cost := populated (upgradeCost item_data) in
  let weapon_info :=
    get_weapon_upgrade_info item_id (listing_eligible item_data) in
  match has_recipe, has_upgrade_cost, weapon_info with
  | None, None, NotWeaponUpgrade => None
  | _, _, _ =>
      Some {| listed_id := item_id;
              listed_name := resolve_name item_id item_data;
              listed_image := resolve_image item_id item_data weapon_info;
              listed_rarity := default "Common"%string (rarity item_data);
              listed_type := default "Unknown"%string (type item_data);
              listed_has_recipe := recipe item_data |}
  end.

(** The view behind [/api/items].  Entries with equal lowercased names keep
    the order of [map_to_list], which need not be the order in which
    [load_items] stored the records. *)
Definition get_items : list listed_item :=
  sorted (λ x, lower (listed_name x))
         (omap (λ '(item_id, item_data), list_item item_id item_data)
               (map_to_list items)).

End Endpoints.

(** [needs items item_id k]: [k] is an ingredient of the production
    mechanism [get_direct_requirements] reads for [item_id] (the upgrade
    cost when it is populated, else the recipe), or the previous upgrade
    level of an item with a populated upgrade cost. *)
Definition needs (items : gmap string item) (item_id k : string) : Prop :=
  ∃ it, items !! item_id = Some it ∧
    ((∃ uc, populated (upgradeCost it) = Some uc ∧
            (is_Some (uc !! k) ∨ get_previous_upgrade_level item_id = Some k))
     ∨ (populated (upgradeCost it) = None ∧
        ∃ rc, populated (recipe it) = Some rc ∧ is_Some (rc !! k))).

(** * Properties *)

(** ** Strings: suffixes and slices *)

Section StringFacts.

Implicit Types s b suffix other : string.

Lemma app_nil_l s : ""%string +:+ s = s.
Proof. reflexivity. Qed.

Lemma app_cons c b s : String c b +:+ s = String c (b +:+ s).
Proof. reflexivity. Qed.

Lemma length_app b s :
  String.length (b +:+ s) = (String.length b + String.length s)%nat.
Proof.
  induction b as [|c b IH]; [done|].
  rewrite app_cons. simpl. by rewrite IH.
Qed.

Lemma substring_app_l b s : substring 0 (String.length b) (b +:+ s) = b.
Proof.
  induction b as [|c b IH].
  - rewrite app_nil_l. by destruct s.
  - rewrite app_cons. simpl. by rewrite IH.
Qed.

Lemma substring_app_r b s m :
  substring (String.length b) m (b +:+ s) = substring 0 m s.
Proof.
  induction b as [|c b IH]; [done|]. rewrite app_cons. simpl. apply IH.
Qed.

Lemma substring_full s : substring 0 (String.length s) s = s.
Proof. induction s as [|c s IH]; simpl; congruence. Qed.

Lemma substring_split s k :
  (k ≤ String.length s)%nat →
  s = substring 0 k s +:+ substring k (String.length s - k) s.
Proof.
  revert k; induction s as [|c s IH]; intros [|k] Hk; simpl in Hk |- *;
    try lia.
  - done.
  - rewrite app_nil_l. by rewrite substring_full.
  - rewrite app_cons. f_equal. apply IH. lia.
Qed.

Lemma chars_app b s :
  list_ascii_of_string (b +:+ s)
  = list_ascii_of_string b ++ list_ascii_of_string s.
Proof.
  induction b as [|c b IH]; [done|]. rewrite app_cons. simpl. by rewrite IH.
Qed.

Lemma string_of_chars_app (l k : list ascii) :
  string_of_list_ascii (l ++ k)
  = string_of_list_ascii l +:+ string_of_list_ascii k.
Proof.
  induction l as [|c l IH]; [done|]. simpl. by rewrite app_cons, IH.
Qed.

Lemma rev_chars_app b s :
  rev_chars (b +:+ s) = rev_chars s ++ rev_chars b.
Proof. unfold rev_chars. by rewrite chars_app, reverse_app. Qed.

Lemma endswith_app b suffix : Py.endswith (b +:+ suffix) suffix = true.
Proof.
  unfold Py.endswith. rewrite length_app.
  rewrite bool_decide_eq_true_2 by lia. simpl.
  replace (String.length b + String.length suffix - String.length suffix)%nat
    with (String.length b) by lia.
  rewrite substring_app_r, substring_full. apply String.eqb_refl.
Qed.

Lemma endswith_inv s suffix :
  Py.endswith s suffix = true → ∃ b, s = b +:+ suffix.
Proof.
  unfold Py.endswith. intros [Hle Heq]%andb_prop.
  apply bool_decide_eq_true in Hle. apply String.eqb_eq in Heq.
  exists (substring 0 (String.length s - String.length suffix) s).
  rewrite (substring_split s (String.length s - String.length suffix))
    at 1 by lia.
  f_equal. etrans; [|exact Heq]. f_equal. lia.
Qed.

(** [s] ends with [suffix] exactly when the characters of [suffix], last
    one first, begin those of [s]. *)
Lemma endswith_prefix s suffix :
  Py.endswith s suffix = true
  ↔ rev_chars suffix `prefix_of` rev_chars s.
Proof.
  split.
  - intros [b ->]%endswith_inv. rewrite rev_chars_app. by eexists.
  - intros [k Hk].
    assert (s = string_of_list_ascii (reverse k) +:+ suffix) as ->;
      [|apply endswith_app].
    rewrite <- (string_of_list_ascii_of_string s).
    rewrite <- (reverse_involutive (list_ascii_of_string s)).
    fold (rev_chars s). rewrite Hk, reverse_app, string_of_chars_app.
    unfold rev_chars.
    by rewrite reverse_involutive, string_of_list_ascii_of_string.
Qed.

(** Two suffixes neither of which ends the other never end the same
    string. *)
Lemma endswith_app_ne b suffix other :
  Py.endswith suffix other = false →
  Py.endswith other suffix = false →
  Py.endswith (b +:+ suffix) other = false.
Proof.
  intros H1 H2. apply not_true_is_false. intros H.
  apply endswith_prefix in H.
  assert (rev_chars suffix `prefix_of` rev_chars (b +:+ suffix))
    as H' by (apply endswith_prefix, endswith_app).
  destruct (prefix_weak_total _ _ _ H H') as [Hp|Hp];
    apply endswith_prefix in Hp; congruence.
Qed.

Lemma drop_last_app b suffix :
  suffix ≠ ""%string →
  Py.drop_last (b +:+ suffix) (String.length suffix) = b.
Proof.
  intros Hne. unfold Py.drop_last.
  destruct (String.length suffix) as [|n] eqn:Hn.
  - destruct suffix; [done | discriminate].
  - rewrite <- Hn, length_app.
    replace (String.length b + String.length suffix - String.length suffix)%nat
      with (String.length b) by lia.
    apply substring_app_l.
Qed.

Lemma first_suffix_here {A} b suffix (v : A) table :
  first_suffix (b +:+ suffix) ((suffix, v) :: table) = Some (suffix, v).
Proof. simpl. by rewrite endswith_app. Qed.

Lemma first_suffix_skip {A} b suffix other (v : A) table :
  Py.endswith suffix other = false →
  Py.endswith other suffix = false →
  first_suffix (b +:+ suffix) ((other, v) :: table)
  = first_suffix (b +:+ suffix) table.
Proof. intros H1 H2. simpl. by rewrite endswith_app_ne. Qed.

End StringFacts.

(** ** Upgrade tier resolver *)

(** Scanning a suffix table on an identifier [b +:+ suffix]: step over the
    entries whose key cannot end it, stop at the entry for [suffix]. *)
Ltac scan_suffix_table :=
  repeat first
    [ rewrite first_suffix_here
    | rewrite first_suffix_skip by reflexivity ].

Lemma get_previous_upgrade_level_tier b current previous :
  (current, previous) ∈ upgrade_map →
  get_previous_upgrade_level (b +:+ current) = Some (b +:+ previous).
Proof.
  unfold get_previous_upgrade_level, upgrade_map.
  rewrite !elem_of_cons, elem_of_nil.
  intros [[= -> ->]|[[= -> ->]|[[= -> ->]|[]]]]; scan_suffix_table;
    by rewrite drop_last_app.
Qed.

Lemma get_previous_upgrade_level_none s :
  Py.endswith s "_iv" = false →
  Py.endswith s "_iii" = false →
  Py.endswith s "_ii" = false →
  get_previous_upgrade_level s = None.
Proof.
  intros H4 H3 H2. unfold get_previous_upgrade_level, upgrade_map. simpl.
  by rewrite H4, H3, H2.
Qed.

(** The previous level, when there is one, is a non-empty string. *)
Lemma get_previous_upgrade_level_truthy s p :
  get_previous_upgrade_level s = Some p → Py.str_truthy p = true.
Proof.
  unfold get_previous_upgrade_level, upgrade_map. simpl.
  repeat case_match; intros [= <-]; simplify_eq;
    match goal with
    | |- Py.str_truthy (?x +:+ _) = true =>
        generalize x; intros [|c r]; reflexivity
    end.
Qed.

Lemma get_weapon_upgrade_info_tier b suffix roman :
  (suffix, roman) ∈ upgrade_levels →
  get_weapon_upgrade_info (b +:+ suffix) true
  = WeaponUpgrade b roman
      (if negb (String.eqb suffix "_i") then Some roman else None).
Proof.
  unfold get_weapon_upgrade_info, upgrade_levels.
  rewrite !elem_of_cons, elem_of_nil.
  intros [[= -> ->]|[[= -> ->]|[[= -> ->]|[[= -> ->]|[]]]]]; simpl negb;
    cbv iota; scan_suffix_table; by rewrite drop_last_app.
Qed.

(** C6: [get_previous_upgrade_level] replaces a final [_ii], [_iii] or [_iv]
    by [_i], [_ii] or [_iii], and returns [None] for an identifier that ends
    in none of the three; so ["rifle_iv"] gives ["rifle_iii"], and
    ["rifle_i"] and ["rifle"] give [None]. *)
Theorem get_previous_upgrade_level_spec :
  (∀ b, get_previous_upgrade_level (b +:+ "_ii") = Some (b +:+ "_i"))
  ∧ (∀ b, get_previous_upgrade_level (b +:+ "_iii") = Some (b +:+ "_ii"))
  ∧ (∀ b, get_previous_upgrade_level (b +:+ "_iv") = Some (b +:+ "_iii"))
  ∧ (∀ s, Py.endswith s "_ii" = false →
          Py.endswith s "_iii" = false →
          Py.endswith s "_iv" = false →
          get_previous_upgrade_level s = None)
  ∧ get_previous_upgrade_level "rifle_iv" = Some "rifle_iii"%string
  ∧ get_previous_upgrade_level "rifle_i" = None
  ∧ get_previous_upgrade_level "rifle" = None.
Proof.
  repeat split; try reflexivity.
  - intros b. apply get_previous_upgrade_level_tier. set_solver.
  - intros b. apply get_previous_upgrade_level_tier. set_solver.
  - intros b. apply get_previous_upgrade_level_tier. set_solver.
  - intros s H2 H3 H4. by apply get_previous_upgrade_level_none.
Qed.

Lemma get_previous_upgrade_level_spec_witness :
  get_previous_upgrade_level "rifle_v" = None.
Proof.
  apply (proj1 (proj2 (proj2 (proj2 get_previous_upgrade_level_spec))));
    reflexivity.
Defined.

(** C5: what [get_weapon_upgrade_info] returns.  It is
    [{'is_weapon_upgrade': False}] when [is_weapon] is false; on a final
    [_i], [_ii], [_iii] or [_iv] it is the base identifier and the item's own
    numeral.  Its ['previous_level'] is [None] for tier I and, for a higher
    tier, the item's own numeral again, not the numeral of the tier below:
    for ["rifle_iii"] it is ["III"], where the claim expects ["II"]. *)
Theorem get_weapon_upgrade_info_previous_level :
  (∀ item_id, get_weapon_upgrade_info item_id false = NotWeaponUpgrade)
  ∧ (∀ b, get_weapon_upgrade_info (b +:+ "_i") true
          = WeaponUpgrade b "I" None)
  ∧ (∀ b, get_weapon_upgrade_info (b +:+ "_ii") true
          = WeaponUpgrade b "II" (Some "II"%string))
  ∧ (∀ b, get_weapon_upgrade_info (b +:+ "_iii") true
          = WeaponUpgrade b "III" (Some "III"%string))
  ∧ (∀ b, get_weapon_upgrade_info (b +:+ "_iv") true
          = WeaponUpgrade b "IV" (Some "IV"%string))
  ∧ get_weapon_upgrade_info "rifle_iii" true
    = WeaponUpgrade "rifle" "III" (Some "III"%string).
Proof.
  repeat split; try reflexivity; intros b.
  - by rewrite (get_weapon_upgrade_info_tier b "_i" "I") by set_solver.
  - by rewrite (get_weapon_upgrade_info_tier b "_ii" "II") by set_solver.
  - by rewrite (get_weapon_upgrade_info_tier b "_iii" "III") by set_solver.
  - by rewrite (get_weapon_upgrade_info_tier b "_iv" "IV") by set_solver.
Qed.

(** ** Sums of requirement mappings *)

Section ReqSum.

Implicit Types a b c r : gmap string Z.

Lemma lookup_req_sum a b k :
  req_sum a b !! k = union_with (λ x y, Some (x + y)) (a !! k) (b !! k).
Proof. apply lookup_union_with. Qed.

Lemma req_sum_empty_r a : req_sum a ∅ = a.
Proof.
  apply map_eq; intros k. rewrite lookup_req_sum, lookup_empty.
  by destruct (a !! k).
Qed.

Lemma req_sum_empty_l a : req_sum ∅ a = a.
Proof.
  apply map_eq; intros k. rewrite lookup_req_sum, lookup_empty.
  by destruct (a !! k).
Qed.

Lemma req_sum_assoc a b c : req_sum (req_sum a b) c = req_sum a (req_sum b c).
Proof.
  apply map_eq; intros k. rewrite !lookup_req_sum.
  destruct (a !! k), (b !! k), (c !! k); simpl; f_equal; lia.
Qed.

Lemma req_sum_comm a b : req_sum a b = req_sum b a.
Proof.
  apply map_eq; intros k. rewrite !lookup_req_sum.
  destruct (a !! k), (b !! k); simpl; f_equal; lia.
Qed.

Lemma insert_req_sum a k v :
  a !! k = None → <[k := v]> a = req_sum a {[ k := v ]}.
Proof.
  intros Hk. apply map_eq; intros j. rewrite lookup_req_sum.
  destruct (decide (k = j)) as [<-|Hne].
  - by rewrite lookup_insert_eq, lookup_singleton_eq, Hk.
  - rewrite lookup_insert_ne, lookup_singleton_ne by done.
    by destruct (a !! j).
Qed.

Lemma add_to_sum k v r : add_to k v r = req_sum r {[ k := v ]}.
Proof.
  unfold add_to. apply map_eq; intros j. rewrite lookup_req_sum.
  destruct (decide (k = j)) as [<-|Hne].
  - rewrite lookup_insert_eq, lookup_singleton_eq. by destruct (r !! k).
  - rewrite lookup_insert_ne, lookup_singleton_ne by done.
    by destruct (r !! j).
Qed.

Lemma add_costs_sum costs quantity r :
  add_costs costs quantity r = req_sum r ((λ q, q * quantity) <$> costs).
Proof.
  unfold add_costs.
  apply (map_fold_weak_ind
           (λ acc m, acc = req_sum r ((λ q, q * quantity) <$> m))).
  - by rewrite fmap_empty, req_sum_empty_r.
  - intros i x m acc Hi ->.
    rewrite add_to_sum, req_sum_assoc, fmap_insert. f_equal.
    symmetry. apply insert_req_sum. by rewrite lookup_fmap, Hi.
Qed.

End ReqSum.

(** ** Requirement expander *)

Section Expander.

Variable items : gmap string item.

Implicit Types selected : gmap string Z.

(** One pass of the loop adds to the requirements what the entry
    contributes on its own. *)
Lemma add_item_sum item_id quantity r :
  add_item items item_id quantity r
  = req_sum r (add_item items item_id quantity ∅).
Proof.
  unfold add_item.
  destruct (items !! item_id) as [it|]; [|by rewrite req_sum_empty_r].
  destruct (populated (upgradeCost it)) as [uc|].
  - destruct (get_previous_upgrade_level item_id) as [p|];
      [destruct (Py.str_truthy p)|];
      rewrite ?add_to_sum, !add_costs_sum, ?req_sum_empty_l,
        ?req_sum_assoc; reflexivity.
  - destruct (populated (recipe it)) as [rc|].
    + by rewrite !add_costs_sum, req_sum_empty_l.
    + by rewrite req_sum_empty_r.
Qed.

Lemma add_item_comm i1 q1 i2 q2 r :
  add_item items i1 q1 (add_item items i2 q2 r)
  = add_item items i2 q2 (add_item items i1 q1 r).
Proof.
  rewrite (add_item_sum i1), (add_item_sum i2 q2 r).
  rewrite (add_item_sum i2 q2 (add_item _ _ _ _)), (add_item_sum i1 q1 r).
  rewrite !req_sum_assoc. f_equal. apply req_sum_comm.
Qed.

Lemma get_direct_requirements_empty : get_direct_requirements items ∅ = ∅.
Proof. apply map_fold_empty. Qed.

Lemma get_direct_requirements_singleton item_id quantity :
  get_direct_requirements items {[ item_id := quantity ]}
  = add_item items item_id quantity ∅.
Proof. apply map_fold_singleton. Qed.

Lemma get_direct_requirements_insert selected item_id quantity :
  selected !! item_id = None →
  get_direct_requirements items (<[item_id := quantity]> selected)
  = req_sum (get_direct_requirements items selected)
            (get_direct_requirements items {[ item_id := quantity ]}).
Proof.
  intros Hfresh. rewrite get_direct_requirements_singleton.
  unfold get_direct_requirements.
  rewrite map_fold_insert_L; [apply add_item_sum| |done].
  intros. apply add_item_comm.
Qed.


(** What an entry whose record has a populated upgrade cost contributes. *)
Lemma add_item_upgrade item_id it upgrade_cost quantity :
  items !! item_id = Some it →
  populated (upgradeCost it) = Some upgrade_cost →
  add_item items item_id quantity ∅
  = req_sum ((λ q, q * quantity) <$> upgrade_cost)
      match get_previous_upgrade_level item_id with
      | Some previous_level => {[ previous_level := quantity ]}
      | None => ∅
      end.
Proof.
  intros Hit Huc. unfold add_item. rewrite Hit, Huc.
  destruct (get_previous_upgrade_level item_id) as [p|] eqn:Hp.
  - rewrite (get_previous_upgrade_level_truthy _ _ Hp).
    by rewrite add_to_sum, add_costs_sum, req_sum_empty_l.
  - by rewrite add_costs_sum, req_sum_empty_l, req_sum_empty_r.
Qed.

(** What an entry whose record has a populated recipe and no populated
    upgrade cost contributes. *)
Lemma add_item_recipe item_id it rc quantity :
  items !! item_id = Some it →
  populated (upgradeCost it) = None →
  populated (recipe it) = Some rc →
  add_item items item_id quantity ∅ = (λ q, q * quantity) <$> rc.
Proof.
  intros Hit Huc Hrc. unfold add_item. rewrite Hit, Huc, Hrc.
  by rewrite add_costs_sum, req_sum_empty_l.
Qed.

End Expander.

(** The expansion reads the catalog only through [add_item]. *)
Lemma get_direct_requirements_ext items items' :
  (∀ item_id quantity,
     add_item items item_id quantity ∅ = add_item items' item_id quantity ∅) →
  ∀ selected,
    get_direct_requirements items selected
    = get_direct_requirements items' selected.
Proof.
  intros Hext selected.
  induction selected as [|i x selected Hi IH] using map_ind.
  - by rewrite !get_direct_requirements_empty.
  - rewrite !get_direct_requirements_insert by done.
    by rewrite !get_direct_requirements_singleton, IH, Hext.
Qed.

(** C1: an entry whose record has a populated [upgradeCost] adds
    [perUnitQty * qty] under every ingredient of the upgrade cost and [qty]
    under the previous tier's identifier when there is one, and nothing else:
    the record's recipe plays no part, so two records with the same upgrade
    cost expand alike.  For [weapon_iii] with upgrade cost
    [{mat_a: 3, mat_b: 1}], whatever its recipe, [{weapon_iii: 2}] expands to
    [{mat_a: 6, mat_b: 2, weapon_ii: 2}]. *)
Theorem upgrade_cost_expansion :
  (∀ items item_id it upgrade_cost,
     items !! item_id = Some it →
     populated (upgradeCost it) = Some upgrade_cost →
     (∀ selected quantity,
        selected !! item_id = None →
        get_direct_requirements items (<[item_id := quantity]> selected)
        = req_sum (get_direct_requirements items selected)
            (req_sum ((λ q, q * quantity) <$> upgrade_cost)
               match get_previous_upgrade_level item_id with
               | Some previous_level => {[ previous_level := quantity ]}
               | None => ∅
               end))
     ∧ (∀ it' selected,
          upgradeCost it' = upgradeCost it →
          get_direct_requirements (<[item_id := it']> items) selected
          = get_direct_requirements items selected))
  ∧ (∀ items it,
       items !! "weapon_iii"%string = Some it →
       upgradeCost it = Some {[ "mat_a"%string := 3; "mat_b"%string := 1 ]} →
       get_direct_requirements items {[ "weapon_iii"%string := 2 ]}
       = {[ "mat_a"%string := 6; "mat_b"%string := 2;
            "weapon_ii"%string := 2 ]}).
Proof.
  split.
  - intros items item_id it uc Hit Huc. split.
    + intros selected quantity Hfresh.
      rewrite get_direct_requirements_insert by done.
      rewrite get_direct_requirements_singleton.
      by rewrite (add_item_upgrade items item_id it uc).
    + intros it' selected Hsame.
      apply get_direct_requirements_ext. intros j quantity.
      destruct (decide (j = item_id)) as [->|Hne].
      * rewrite (add_item_upgrade items item_id it uc) by done.
        apply (add_item_upgrade _ item_id it' uc).
        -- apply lookup_insert_eq.
        -- by rewrite Hsame.
      * unfold add_item. by rewrite lookup_insert_ne.
  - intros items it Hit Huc.
    rewrite get_direct_requirements_singleton.
    rewrite (add_item_upgrade items _ it
               {[ "mat_a"%string := 3; "mat_b"%string := 1 ]});
      [reflexivity|done|].
    by rewrite Huc.
Qed.

Lemma upgrade_cost_expansion_witness :
  get_direct_requirements armory {[ "weapon_iii"%string := 2 ]}
  = {[ "mat_a"%string := 6; "mat_b"%string := 2; "weapon_ii"%string := 2 ]}.
Proof.
  apply (proj2 upgrade_cost_expansion armory
           (upgraded (Some {[ "scrap"%string := 5 ]})
                     {[ "mat_a"%string := 3; "mat_b"%string := 1 ]}));
    reflexivity.
Defined.

(** C2: for a record with a populated recipe and no populated upgrade cost,
    [{id: n}] expands to the recipe with every quantity multiplied by [n],
    and to nothing else, for every [n]; the recipes of the ingredients play
    no part.  In the catalog [{wood: {}, plank: {recipe: {wood: 2}},
    table: {recipe: {plank: 4}}}], [{table: 1}] expands to [{plank: 4}] and
    [{plank: 4}] to [{wood: 8}]. *)
Theorem recipe_expansion :
  (∀ items item_id it rc n,
     items !! item_id = Some it →
     populated (upgradeCost it) = None →
     populated (recipe it) = Some rc →
     get_direct_requirements items {[ item_id := n ]} = (λ q, q * n) <$> rc)
  ∧ get_direct_requirements carpentry {[ "table"%string := 1 ]}
    = {[ "plank"%string := 4 ]}
  ∧ get_direct_requirements carpentry {[ "plank"%string := 4 ]}
    = {[ "wood"%string := 8 ]}.
Proof.
  split; [|split; reflexivity].
  intros items item_id it rc n Hit Huc Hrc.
  rewrite get_direct_requirements_singleton.
  by apply (add_item_recipe items item_id it).
Qed.

Lemma recipe_expansion_witness :
  get_direct_requirements carpentry {[ "table"%string := 3 ]}
  = (λ q, q * 3) <$> {[ "plank"%string := 4 ]}.
Proof.
  apply (proj1 recipe_expansion carpentry "table"%string
           (crafted {[ "plank"%string := 4 ]}));
    reflexivity.
Defined.



(** C4: an identifier that is absent from the catalog is a base resource,
    and selecting it adds nothing to the expansion, alone or among other
    entries; both functions return a value on it, there is no error case. *)
Theorem unknown_item_is_base items item_id :
  items !! item_id = None →
  is_base_resource items item_id = true
  ∧ (∀ n, get_direct_requirements items {[ item_id := n ]} = ∅)
  ∧ (∀ selected n,
       selected !! item_id = None →
       get_direct_requirements items (<[item_id := n]> selected)
       = get_direct_requirements items selected).
Proof.
  intros Hunknown.
  assert (∀ n, get_direct_requirements items {[ item_id := n ]} = ∅) as Hone.
  { intros n. rewrite get_direct_requirements_singleton.
    unfold add_item. by rewrite Hunknown. }
  repeat split.
  - unfold is_base_resource. by rewrite Hunknown.
  - exact Hone.
  - intros selected n Hfresh.
    rewrite get_direct_requirements_insert by done.
    by rewrite Hone, req_sum_empty_r.
Qed.

Lemma unknown_item_is_base_witness :
  is_base_resource carpentry "stone" = true
  ∧ (∀ n, get_direct_requirements carpentry {[ "stone"%string := n ]} = ∅)
  ∧ (∀ selected n,
       selected !! "stone"%string = None →
       get_direct_requirements carpentry (<["stone"%string := n]> selected)
       = get_direct_requirements carpentry selected).
Proof. apply (unknown_item_is_base carpentry "stone"). reflexivity. Defined.

(** C10: with quantity 0 the expansion of an item holds an entry of
    quantity 0 for every ingredient of its upgrade cost and for its previous
    tier, or for every ingredient of its recipe: a zero quantity is neither
    refused nor dropped.  Through the endpoint, [plank] with quantity 0 gives
    one line, [wood] with quantity 0. *)
Theorem zero_quantity_entries :
  (∀ items item_id it,
     items !! item_id = Some it →
     (∀ upgrade_cost,
        populated (upgradeCost it) = Some upgrade_cost →
        (∀ ingredient_id,
           is_Some (upgrade_cost !! ingredient_id) →
           get_direct_requirements items {[ item_id := 0 ]} !! ingredient_id
           = Some 0)
        ∧ (∀ previous_level,
             get_previous_upgrade_level item_id = Some previous_level →
             get_direct_requirements items {[ item_id := 0 ]} !! previous_level
             = Some 0)
        ∧ ∃ k, get_direct_requirements items {[ item_id := 0 ]} !! k = Some 0)
     ∧ (∀ rc,
          populated (upgradeCost it) = None →
          populated (recipe it) = Some rc →
          (∀ ingredient_id,
             is_Some (rc !! ingredient_id) →
             get_direct_requirements items {[ item_id := 0 ]} !! ingredient_id
             = Some 0)
          ∧ ∃ k, get_direct_requirements items {[ item_id := 0 ]} !! k = Some 0))
  ∧ expand_item carpentry
      {| req_item_id := Some "plank"%string; req_quantity := Some 0 |}
    = {| body :=
           ResultBody
             [ {| line_info :=
                    {| info_id := "wood"; info_name := "wood";
                       info_image := "static/images/wood.png";
                       info_rarity := "Common"; info_type := "Unknown";
                       info_upgrade := None |};
                  line_quantity := 0;
                  line_can_expand := false |} ];
         status := 200 |}.
Proof.
  split; [|vm_compute; reflexivity].
  intros items item_id it Hit. split.
  - intros uc Huc.
    assert (∀ k, is_Some (uc !! k) →
              get_direct_requirements items {[ item_id := 0 ]} !! k = Some 0)
      as Hing.
    { intros k [q Hq]. rewrite get_direct_requirements_singleton.
      rewrite (add_item_upgrade items item_id it uc) by done.
      rewrite lookup_req_sum, lookup_fmap, Hq. simpl.
      destruct (get_previous_upgrade_level item_id) as [p|].
      - rewrite lookup_singleton. case_decide; simpl; f_equal; lia.
      - rewrite lookup_empty. simpl. f_equal. lia. }
    split; [exact Hing|split].
    + intros p Hp. rewrite get_direct_requirements_singleton.
      rewrite (add_item_upgrade items item_id it uc) by done.
      rewrite lookup_req_sum, lookup_fmap, Hp, lookup_singleton_eq.
      destruct (uc !! p); simpl; f_equal; lia.
    + assert (uc ≠ ∅) as Hne.
      { unfold populated in Huc. destruct (upgradeCost it); [|done].
        case_decide; congruence. }
      destruct (map_choose uc Hne) as (k & q & Hk). exists k. eauto.
  - intros rc Huc Hrc.
    assert (∀ k, is_Some (rc !! k) →
              get_direct_requirements items {[ item_id := 0 ]} !! k = Some 0)
      as Hing.
    { intros k [q Hq]. rewrite get_direct_requirements_singleton.
      rewrite (add_item_recipe items item_id it rc) by done.
      rewrite lookup_fmap, Hq. simpl. f_equal. lia. }
    split; [exact Hing|].
    assert (rc ≠ ∅) as Hne.
    { unfold populated in Hrc. destruct (recipe it); [|done].
      case_decide; congruence. }
    destruct (map_choose rc Hne) as (k & q & Hk). exists k. eauto.
Qed.

Lemma zero_quantity_entries_witness :
  get_direct_requirements armory {[ "weapon_iii"%string := 0 ]}
    !! "weapon_ii"%string
  = Some 0.
Proof.
  apply (proj1 (proj2 (proj1 (proj1 zero_quantity_entries armory
           "weapon_iii"%string
           (upgraded (Some {[ "scrap"%string := 5 ]})
                     {[ "mat_a"%string := 3; "mat_b"%string := 1 ]})
           eq_refl)
           {[ "mat_a"%string := 3; "mat_b"%string := 1 ]} eq_refl)));
    reflexivity.
Defined.

(** ** Display info resolver *)

(** C7: the image path of [get_item_info] is the record's own
    [imageFilename] when it is present and non-empty; otherwise the base
    identifier's [.png] when the identifier is a weapon-upgrade tier of an
    item that is not a Modification; otherwise the identifier's own [.png].
    An item [rifle_ii] that is not a Modification and has no image of its own
    gets [rifle.png], not [rifle_ii.png]. *)
Theorem image_path_priority :
  (∀ items item_id,
     let it := default empty_item (items !! item_id) in
     let weapon_info := get_weapon_upgrade_info item_id (weapon_eligible it) in
     (∀ f, imageFilename it = Some f → f ≠ ""%string →
           info_image (get_item_info items item_id) = "static/images/" +:+ f)
     ∧ (default ""%string (imageFilename it) = ""%string →
        ∀ base_name level previous,
          weapon_info = WeaponUpgrade base_name level previous →
          info_image (get_item_info items item_id)
          = "static/images/" +:+ base_name +:+ ".png")
     ∧ (default ""%string (imageFilename it) = ""%string →
        weapon_info = NotWeaponUpgrade →
        info_image (get_item_info items item_id)
        = "static/images/" +:+ item_id +:+ ".png"))
  ∧ (∀ items b suffix roman,
       (suffix, roman) ∈ upgrade_levels →
       let it := default empty_item (items !! (b +:+ suffix)) in
       default ""%string (imageFilename it) = ""%string →
       weapon_eligible it = true →
       info_image (get_item_info items (b +:+ suffix))
       = "static/images/" +:+ b +:+ ".png")
  ∧ (∀ items,
       let it := default empty_item (items !! "rifle_ii"%string) in
       default ""%string (imageFilename it) = ""%string →
       weapon_eligible it = true →
       info_image (get_item_info items "rifle_ii") = "static/images/rifle.png"
       ∧ info_image (get_item_info items "rifle_ii")
         ≠ "static/images/rifle_ii.png"%string).
Proof.
  split; [|split].
  - intros items item_id it weapon_info. unfold get_item_info. simpl.
    fold it. fold weapon_info. unfold resolve_image. repeat split.
    + intros f -> Hf. simpl. by destruct f.
    + intros -> base_name level previous ->. reflexivity.
    + intros -> ->. reflexivity.
  - intros items b suffix roman Hin it Himg Hel.
    unfold get_item_info. simpl. fold it. unfold resolve_image.
    rewrite Himg, Hel. simpl.
    by rewrite (get_weapon_upgrade_info_tier b suffix roman).
  - intros items it Himg Hel.
    unfold get_item_info. simpl. fold it. unfold resolve_image.
    rewrite Himg, Hel. simpl. by split.
Qed.

Lemma image_path_priority_witness :
  info_image (get_item_info showroom "rifle_ii") = "static/images/rifle.png"
  ∧ info_image (get_item_info showroom "rifle_ii")
    ≠ "static/images/rifle_ii.png"%string.
Proof.
  apply (proj2 (proj2 image_path_priority) showroom); reflexivity.
Defined.

(** C8: the display name of [get_item_info] is the [en] entry of a name
    stored as a mapping, or the identifier when that mapping has no [en]
    entry; the string itself for a name stored as a string; the identifier
    when the record has no name, and when the item is unknown. *)
Theorem display_name_resolution :
  (∀ items item_id it d,
     items !! item_id = Some it →
     name it = Some (NameDict d) →
     info_name (get_item_info items item_id)
     = default item_id (d !! "en"%string))
  ∧ (∀ items item_id it s,
       items !! item_id = Some it →
       name it = Some (NameStr s) →
       info_name (get_item_info items item_id) = s)
  ∧ (∀ items item_id it,
       items !! item_id = Some it →
       name it = None →
       info_name (get_item_info items item_id) = item_id)
  ∧ (∀ items item_id,
       items !! item_id = None →
       info_name (get_item_info items item_id) = item_id)
  ∧ info_name (get_item_info showroom "rifle") = "Rifle"%string
  ∧ info_name (get_item_info showroom "carbine") = "Rifle"%string
  ∧ info_name (get_item_info showroom "rifle_ii") = "rifle_ii"%string.
Proof.
  repeat split; try reflexivity.
  - intros items item_id it d Hit Hname.
    unfold get_item_info, resolve_name. simpl. by rewrite Hit; simpl; rewrite Hname.
  - intros items item_id it s Hit Hname.
    unfold get_item_info, resolve_name. simpl. by rewrite Hit; simpl; rewrite Hname.
  - intros items item_id it Hit Hname.
    unfold get_item_info, resolve_name. simpl. by rewrite Hit; simpl; rewrite Hname.
  - intros items item_id Hit.
    unfold get_item_info, resolve_name. simpl. by rewrite Hit.
Qed.

Lemma display_name_resolution_witness :
  info_name (get_item_info showroom "rifle")
  = default "rifle"%string
      (({[ "en"%string := "Rifle"%string; "fr"%string := "Fusil"%string ]}
          : gmap string string) !! "en"%string).
Proof.
  apply (proj1 display_name_resolution showroom "rifle"%string
           (named (NameDict {[ "en"%string := "Rifle"%string;
                               "fr"%string := "Fusil"%string ]})));
    reflexivity.
Defined.

(** ** The single-item expansion endpoint *)

(** C9: without an item identifier (the key is absent, or holds the empty
    string) the endpoint answers with the error body and status 400; with an
    identifier that the catalog does not know it answers with an empty result
    and status 200; so the two answers differ. *)
Theorem expand_item_missing_id :
  (∀ items quantity,
     expand_item items {| req_item_id := None; req_quantity := quantity |}
     = {| body := ErrorBody "item_id required"; status := 400 |})
  ∧ (∀ items quantity,
       expand_item items
         {| req_item_id := Some ""%string; req_quantity := quantity |}
       = {| body := ErrorBody "item_id required"; status := 400 |})
  ∧ (∀ items item_id quantity,
       item_id ≠ ""%string →
       items !! item_id = None →
       expand_item items
         {| req_item_id := Some item_id; req_quantity := quantity |}
       = {| body := ResultBody []; status := 200 |})
  ∧ (∀ items item_id quantity quantity',
       item_id ≠ ""%string →
       items !! item_id = None →
       expand_item items
         {| req_item_id := None; req_quantity := quantity |}
       ≠ expand_item items
           {| req_item_id := Some item_id; req_quantity := quantity' |}).
Proof.
  assert (∀ items item_id quantity,
            item_id ≠ ""%string →
            items !! item_id = None →
            expand_item items
              {| req_item_id := Some item_id; req_quantity := quantity |}
            = {| body := ResultBody []; status := 200 |}) as Hunknown.
  { intros items item_id quantity Hne Hit. unfold expand_item. simpl.
    destruct item_id as [|c r]; [done|]. simpl.
    rewrite get_direct_requirements_singleton. unfold add_item.
    rewrite Hit. by rewrite map_to_list_empty. }
  repeat split; try reflexivity.
  - exact Hunknown.
  - intros items item_id quantity quantity' Hne Hit.
    rewrite (Hunknown items item_id quantity') by done. discriminate.
Qed.

Lemma expand_item_missing_id_witness :
  expand_item carpentry
    {| req_item_id := Some "stone"%string; req_quantity := Some 3 |}
  = {| body := ResultBody []; status := 200 |}.
Proof.
  apply (proj1 (proj2 (proj2 expand_item_missing_id)) carpentry
           "stone"%string (Some 3)).
  - discriminate.
  - reflexivity.
Defined.

(** * Further properties of the code *)

(** ** Suffix scans *)

Lemma first_suffix_Some {A} s (table : list (string * A)) e :
  first_suffix s table = Some e → e ∈ table ∧ Py.endswith s e.1 = true.
Proof.
  induction table as [|[suffix v] table IH]; simpl; [done|].
  destruct (Py.endswith s suffix) eqn:Hs.
  - intros [= <-]. split; [left|done].
  - intros [Hin He]%IH. split; [by right|done].
Qed.

Lemma first_suffix_None {A} s (table : list (string * A)) :
  first_suffix s table = None ↔ ∀ e, e ∈ table → Py.endswith s e.1 = false.
Proof.
  induction table as [|[suffix v] table IH]; simpl.
  - split; [|done]. intros _ e He. by apply elem_of_nil in He.
  - destruct (Py.endswith s suffix) eqn:Hs.
    + split; [done|]. intros H. specialize (H (suffix, v)). simpl in H.
      rewrite H in Hs; [done|left].
    + rewrite IH. split.
      * intros H e [->|He]%elem_of_cons; [done|by apply H].
      * intros H e He. apply H. by right.
Qed.

(** No identifier ends in two different tier suffixes. *)
Lemma upgrade_levels_exclusive s e1 e2 :
  e1 ∈ upgrade_levels → e2 ∈ upgrade_levels →
  Py.endswith s e1.1 = true → Py.endswith s e2.1 = true → e1 = e2.
Proof.
  unfold upgrade_levels. rewrite !elem_of_cons, !elem_of_nil.
  intros H1 H2 [b ->]%endswith_inv.
  destruct H1 as [->|[->|[->|[->|[]]]]];
    destruct H2 as [->|[->|[->|[->|[]]]]]; simpl; intros He;
    try reflexivity;
    rewrite endswith_app_ne in He by reflexivity; discriminate.
Qed.

Lemma upgrade_map_levels e :
  e ∈ upgrade_map → ∃ roman, (e.1, roman) ∈ upgrade_levels.
Proof.
  unfold upgrade_map, upgrade_levels. rewrite !elem_of_cons, elem_of_nil.
  intros [->|[->|[->|[]]]]; simpl;
    [exists "IV"%string | exists "III"%string | exists "II"%string];
    set_solver.
Qed.

Lemma upgrade_map_exclusive s e1 e2 :
  e1 ∈ upgrade_map → e2 ∈ upgrade_map →
  Py.endswith s e1.1 = true → Py.endswith s e2.1 = true → e1 = e2.
Proof.
  intros H1 H2 Hs1 Hs2.
  destruct (upgrade_map_levels e1 H1) as [r1 Hr1].
  destruct (upgrade_map_levels e2 H2) as [r2 Hr2].
  pose proof (upgrade_levels_exclusive s _ _ Hr1 Hr2 Hs1 Hs2) as Heq.
  simpl in Heq. injection Heq as Hsuf _.
  revert H1 H2 Hsuf. unfold upgrade_map.
  rewrite !elem_of_cons, !elem_of_nil.
  intros [->|[->|[->|[]]]] [->|[->|[->|[]]]]; simpl; intros; simplify_eq;
    reflexivity.
Qed.

(** A scan gives the same result on every reordering of a table whose
    matching entries are unique. *)
Lemma first_suffix_perm {A} s (t t' : list (string * A)) :
  (∀ e1 e2, e1 ∈ t → e2 ∈ t →
     Py.endswith s e1.1 = true → Py.endswith s e2.1 = true → e1 = e2) →
  t ≡ₚ t' →
  first_suffix s t = first_suffix s t'.
Proof.
  intros Hex Hperm.
  destruct (first_suffix s t) as [e|] eqn:He;
    destruct (first_suffix s t') as [e'|] eqn:He'; try done.
  - apply first_suffix_Some in He as [Hin Hs].
    apply first_suffix_Some in He' as [Hin' Hs'].
    f_equal. apply Hex; try done. by rewrite Hperm.
  - apply first_suffix_Some in He as [Hin Hs].
    rewrite first_suffix_None in He'. rewrite He' in Hs; [done|].
    by rewrite <- Hperm.
  - apply first_suffix_Some in He' as [Hin' Hs'].
    rewrite first_suffix_None in He. rewrite He in Hs'; [done|].
    by rewrite Hperm.
Qed.

Lemma upgrade_levels_nonempty e : e ∈ upgrade_levels → e.1 ≠ ""%string.
Proof.
  unfold upgrade_levels. rewrite !elem_of_cons, elem_of_nil.
  intros [->|[->|[->|[->|[]]]]]; done.
Qed.

Lemma get_previous_upgrade_level_inv s p :
  get_previous_upgrade_level s = Some p →
  ∃ b current previous,
    (current, previous) ∈ upgrade_map ∧ s = b +:+ current
    ∧ p = b +:+ previous.
Proof.
  unfold get_previous_upgrade_level.
  destruct (first_suffix s upgrade_map) as [[current previous]|] eqn:Hf;
    [|done].
  apply first_suffix_Some in Hf as [Hin Hs]. simpl in Hs.
  apply endswith_inv in Hs as [b ->]. intros [= <-].
  exists b, current, previous. split; [done|]. split; [done|].
  rewrite drop_last_app; [done|].
  destruct (upgrade_map_levels _ Hin) as [r Hr].
  apply (upgrade_levels_nonempty _ Hr).
Qed.

Lemma get_weapon_upgrade_info_inv s w b l p :
  get_weapon_upgrade_info s w = WeaponUpgrade b l p →
  w = true
  ∧ ∃ suffix,
      (suffix, l) ∈ upgrade_levels ∧ s = b +:+ suffix
      ∧ p = (if negb (String.eqb suffix "_i") then Some l else None).
Proof.
  unfold get_weapon_upgrade_info. destruct w; [|done]. cbv [negb].
  destruct (first_suffix s upgrade_levels) as [[suffix roman]|] eqn:Hf;
    [|done].
  apply first_suffix_Some in Hf as [Hin Hs]. simpl in Hs.
  apply endswith_inv in Hs as [b' ->].
  rewrite drop_last_app by apply (upgrade_levels_nonempty _ Hin).
  intros [= -> -> <-]. split; [done|]. by exists suffix.
Qed.

(** X1: the suffix scans of [get_weapon_upgrade_info] and
    [get_previous_upgrade_level] do not depend on the order in which their
    tables are written: no identifier ends in two of the suffixes, so a scan
    of any reordering of [upgrade_levels] or of [upgrade_map] finds the same
    entry. *)
Theorem suffix_scan_order_irrelevant :
  (∀ s table, table ≡ₚ upgrade_levels →
     first_suffix s table = first_suffix s upgrade_levels)
  ∧ (∀ s table, table ≡ₚ upgrade_map →
       first_suffix s table = first_suffix s upgrade_map).
Proof.
  split; intros s table Hperm; symmetry.
  - apply first_suffix_perm; [|done]. apply upgrade_levels_exclusive.
  - apply first_suffix_perm; [|done]. apply upgrade_map_exclusive.
Qed.

Lemma suffix_scan_order_irrelevant_witness :
  first_suffix "rifle_iii"
    [ ("_iv", "IV"); ("_iii", "III"); ("_ii", "II"); ("_i", "I") ]%string
  = first_suffix "rifle_iii" upgrade_levels.
Proof.
  apply (proj1 suffix_scan_order_irrelevant).
  unfold upgrade_levels.
  apply (reverse_Permutation
           [ ("_i", "I"); ("_ii", "II"); ("_iii", "III"); ("_iv", "IV") ]%string).
Defined.

(** X2: [get_weapon_upgrade_info] reports an upgrade exactly for an
    eligible identifier made of a base name and one of the four tier
    suffixes: the base name it returns followed by the suffix of the level it
    returns is the identifier again. *)
Theorem get_weapon_upgrade_info_round_trip s w b l p :
  get_weapon_upgrade_info s w = WeaponUpgrade b l p
  ↔ w = true
    ∧ ∃ suffix,
        (suffix, l) ∈ upgrade_levels ∧ s = b +:+ suffix
        ∧ p = (if negb (String.eqb suffix "_i") then Some l else None).
Proof.
  split; [apply get_weapon_upgrade_info_inv|].
  intros (-> & suffix & Hin & -> & ->).
  by apply get_weapon_upgrade_info_tier.
Qed.

(** X3: an upgrade chain ends: following [get_previous_upgrade_level] from
    any identifier reaches [None] within four steps (from [_iv] over [_iii],
    [_ii] and [_i]). *)
Theorem upgrade_chain_ends s :
  ((get_previous_upgrade_level s
      ≫= get_previous_upgrade_level)
     ≫= get_previous_upgrade_level)
    ≫= get_previous_upgrade_level
  = None.
Proof.
  assert (∀ b, get_previous_upgrade_level (b +:+ "_i") = None) as H1.
  { intros b. apply get_previous_upgrade_level_none;
      by apply endswith_app_ne. }
  assert (∀ b, get_previous_upgrade_level (b +:+ "_ii") = Some (b +:+ "_i"))
    as H2 by (intros; apply get_previous_upgrade_level_tier; set_solver).
  assert (∀ b, get_previous_upgrade_level (b +:+ "_iii") = Some (b +:+ "_ii"))
    as H3 by (intros; apply get_previous_upgrade_level_tier; set_solver).
  destruct (get_previous_upgrade_level s) as [p|] eqn:Hp; [|done].
  apply get_previous_upgrade_level_inv in Hp
    as (b & current & previous & Hin & -> & ->).
  revert Hin. unfold upgrade_map. rewrite !elem_of_cons, elem_of_nil.
  intros [[= -> ->]|[[= -> ->]|[[= -> ->]|[]]]]; simpl.
  - by rewrite H3; simpl; rewrite H2; simpl; rewrite H1.
  - by rewrite H2; simpl; rewrite H1.
  - by rewrite H1.
Qed.

(** X4: the previous upgrade level of an identifier is the next lower tier
    of the same weapon: [get_weapon_upgrade_info] gives both the same base
    name, and [level_map], from which [get_item_info] takes the required
    level it displays, maps the level of the one to the level of the
    other. *)
Theorem previous_level_is_lower_tier s p :
  get_previous_upgrade_level s = Some p →
  ∃ b l l' prev',
    get_weapon_upgrade_info s true = WeaponUpgrade b l (Some l)
    ∧ get_weapon_upgrade_info p true = WeaponUpgrade b l' prev'
    ∧ level_map !! l = Some l'.
Proof.
  intros (b & current & previous & Hin & -> & ->)%get_previous_upgrade_level_inv.
  revert Hin. unfold upgrade_map. rewrite !elem_of_cons, elem_of_nil.
  intros [[= -> ->]|[[= -> ->]|[[= -> ->]|[]]]].
  - exists b, "IV"%string, "III"%string, (Some "III"%string).
    rewrite (get_weapon_upgrade_info_tier b "_iv" "IV") by set_solver.
    rewrite (get_weapon_upgrade_info_tier b "_iii" "III") by set_solver.
    done.
  - exists b, "III"%string, "II"%string, (Some "II"%string).
    rewrite (get_weapon_upgrade_info_tier b "_iii" "III") by set_solver.
    rewrite (get_weapon_upgrade_info_tier b "_ii" "II") by set_solver.
    done.
  - exists b, "II"%string, "I"%string, None.
    rewrite (get_weapon_upgrade_info_tier b "_ii" "II") by set_solver.
    rewrite (get_weapon_upgrade_info_tier b "_i" "I") by set_solver.
    done.
Qed.

Lemma previous_level_is_lower_tier_witness :
  ∃ b l l' prev',
    get_weapon_upgrade_info "rifle_iv" true = WeaponUpgrade b l (Some l)
    ∧ get_weapon_upgrade_info "rifle_iii" true = WeaponUpgrade b l' prev'
    ∧ level_map !! l = Some l'.
Proof.
  apply (previous_level_is_lower_tier "rifle_iv" "rifle_iii"). reflexivity.
Defined.

(** X5: [get_item_info] sets the upgrade overlay exactly for an identifier
    with suffix [_ii], [_iii] or [_iv] of an item that is not a Modification,
    and then shows the item's own level with the level below it as the
    required one.  Tier I, Modifications and identifiers without a tier
    suffix get no overlay, and the default ['I'] of [level_map.get] is used
    for no identifier. *)
Theorem upgrade_overlay items item_id l r :
  info_upgrade (get_item_info items item_id) = Some (l, r)
  ↔ weapon_eligible (default empty_item (items !! item_id)) = true
    ∧ ∃ b suffix,
        item_id = b +:+ suffix
        ∧ (suffix, l, r)
          ∈ [ ("_ii", "II", "I"); ("_iii", "III", "II");
              ("_iv", "IV", "III") ]%string.
Proof.
  unfold get_item_info. simpl.
  set (it := default empty_item (items !! item_id)).
  split.
  - destruct (get_weapon_upgrade_info item_id (weapon_eligible it))
      as [|b lvl prev] eqn:Hw; [done|].
    apply get_weapon_upgrade_info_inv in Hw
      as (Hel & suffix & Hin & -> & _).
    intros Hov. split; [done|]. exists b, suffix. split; [done|].
    revert Hin Hov. unfold upgrade_levels.
    rewrite !elem_of_cons, elem_of_nil.
    intros [[= -> ->]|[[= -> ->]|[[= -> ->]|[[= -> ->]|[]]]]]; simpl;
      intros [= <- <-]; set_solver.
  - intros (-> & b & suffix & -> & Hin).
    revert Hin. rewrite !elem_of_cons, elem_of_nil.
    intros [[= -> -> ->]|[[= -> -> ->]|[[= -> -> ->]|[]]]].
    + by rewrite (get_weapon_upgrade_info_tier b "_ii" "II") by set_solver.
    + by rewrite (get_weapon_upgrade_info_tier b "_iii" "III") by set_solver.
    + by rewrite (get_weapon_upgrade_info_tier b "_iv" "IV") by set_solver.
Qed.

(** ** Requirement expander *)

Lemma req_sum_empty_iff (a b : gmap string Z) :
  req_sum a b = ∅ ↔ a = ∅ ∧ b = ∅.
Proof.
  split; [|intros [-> ->]; apply req_sum_empty_l].
  intros H. split; apply map_eq; intros k;
    pose proof (f_equal (.!! k) H) as Hk; simpl in Hk;
    rewrite lookup_req_sum, lookup_empty in Hk; rewrite lookup_empty;
    destruct (a !! k), (b !! k); done.
Qed.

Lemma populated_Some field m : populated field = Some m → m ≠ ∅.
Proof.
  unfold populated. destruct field as [m'|]; [|done].
  case_decide; [done|]. by intros [= <-].
Qed.

Lemma is_Some_sum (a b : option Z) :
  is_Some (union_with (λ x y, Some (x + y)) a b) ↔ is_Some a ∨ is_Some b.
Proof.
  destruct a, b; simpl; split; eauto; intros [[? ?]|[? ?]]; done.
Qed.

(** What one entry contributes has exactly the keys the item [needs]. *)
Lemma add_item_lookup_is_Some items item_id quantity k :
  is_Some (add_item items item_id quantity ∅ !! k) ↔ needs items item_id k.
Proof.
  unfold needs.
  destruct (items !! item_id) as [it|] eqn:Hit.
  2: { unfold add_item. rewrite Hit, lookup_empty. split.
       - by intros [? ?].
       - by intros (? & ? & _). }
  destruct (populated (upgradeCost it)) as [uc|] eqn:Huc.
  - rewrite (add_item_upgrade items item_id it uc) by done.
    rewrite lookup_req_sum, is_Some_sum, lookup_fmap, fmap_is_Some.
    split.
    + intros Hk. exists it. split; [done|]. left. exists uc. split; [done|].
      destruct Hk as [Hk|Hk]; [by left|]. right.
      destruct (get_previous_upgrade_level item_id) as [p|].
      * destruct (decide (p = k)) as [->|Hne]; [done|].
        rewrite lookup_singleton_ne in Hk by done. by destruct Hk.
      * rewrite lookup_empty in Hk. by destruct Hk.
    + intros (it' & [= <-] & [(uc' & Huc' & Hk)|[Hnone _]]); [|congruence].
      assert (uc' = uc) as -> by congruence.
      destruct Hk as [Hk | Hp]; [by left|]. right.
      rewrite Hp, lookup_singleton_eq. eauto.
  - destruct (populated (recipe it)) as [rc|] eqn:Hrc.
    + rewrite (add_item_recipe items item_id it rc) by done.
      rewrite lookup_fmap, fmap_is_Some. split.
      * intros Hk. exists it. split; [done|]. right. split; [done|]. eauto.
      * intros (it' & [= <-] & [(uc' & Huc' & _)|(_ & rc' & Hrc' & Hk)]);
          congruence.
    + unfold add_item. rewrite Hit, Huc, Hrc, lookup_empty. split.
      * by intros [? ?].
      * intros (it' & [= <-] & [(uc' & Huc' & _)|(_ & rc' & Hrc' & _)]);
          congruence.
Qed.

Lemma is_base_resource_needs items item_id :
  is_base_resource items item_id = true ↔ ∀ k, ¬ needs items item_id k.
Proof.
  unfold is_base_resource, needs.
  destruct (items !! item_id) as [it|] eqn:Hit.
  2: { split; [|done]. by intros _ k (? & ? & _). }
  destruct (populated (upgradeCost it)) as [uc|] eqn:Huc;
    destruct (populated (recipe it)) as [rc|] eqn:Hrc; simpl.
  1,2: split; [done|]; intros Hno;
    destruct (map_choose uc (populated_Some _ _ Huc)) as (k & q & Hk);
    destruct (Hno k); exists it; split; [done|]; left; exists uc; eauto.
  - split; [done|]. intros Hno.
    destruct (map_choose rc (populated_Some _ _ Hrc)) as (k & q & Hk).
    destruct (Hno k). exists it. split; [done|]. right. split; [done|].
    exists rc. eauto.
  - split; [|done].
    intros _ k (it' & [= <-] & [(uc' & Huc' & _)|(_ & rc' & Hrc' & _)]);
      congruence.
Qed.

(** X6: the keys of an expansion are exactly what the selected items need:
    an ingredient of the mechanism in force of a selected item, or the
    previous upgrade level of a selected item with a populated upgrade cost.
    No other key is ever produced, whatever the quantities. *)
Theorem expansion_keys items selected k :
  is_Some (get_direct_requirements items selected !! k)
  ↔ ∃ item_id, is_Some (selected !! item_id) ∧ needs items item_id k.
Proof.
  induction selected as [|i x selected Hi IH] using map_ind.
  - rewrite get_direct_requirements_empty, lookup_empty. split.
    + by intros [? ?].
    + intros (j & [? Hj] & _). by rewrite lookup_empty in Hj.
  - rewrite get_direct_requirements_insert by done.
    rewrite get_direct_requirements_singleton, lookup_req_sum.
    rewrite is_Some_sum, IH, add_item_lookup_is_Some. split.
    + intros [(j & Hj & Hn)|Hn].
      * exists j. split; [|done].
        destruct (decide (i = j)) as [->|Hne].
        -- rewrite lookup_insert_eq. eauto.
        -- by rewrite lookup_insert_ne.
      * exists i. rewrite lookup_insert_eq. eauto.
    + intros (j & Hj & Hn).
      destruct (decide (i = j)) as [->|Hne]; [by right|].
      left. exists j. by rewrite lookup_insert_ne in Hj.
Qed.

(** X7: an expansion is empty exactly when every selected identifier is a
    base resource for [is_base_resource]: the ['can_expand'] flag of a line
    is false exactly when expanding that line gives nothing. *)
Theorem expansion_empty_iff_base items selected :
  get_direct_requirements items selected = ∅
  ↔ ∀ item_id, is_Some (selected !! item_id) →
               is_base_resource items item_id = true.
Proof.
  induction selected as [|i x selected Hi IH] using map_ind.
  - rewrite get_direct_requirements_empty. split; [|done].
    intros _ j [? Hj]. by rewrite lookup_empty in Hj.
  - rewrite get_direct_requirements_insert by done.
    rewrite get_direct_requirements_singleton, req_sum_empty_iff, IH.
    assert (add_item items i x ∅ = ∅ ↔ is_base_resource items i = true)
      as ->.
    { rewrite is_base_resource_needs. split.
      - intros He k Hn. apply (add_item_lookup_is_Some items i x) in Hn.
        rewrite He, lookup_empty in Hn. by destruct Hn.
      - intros Hno. apply map_eq. intros k. rewrite lookup_empty.
        apply eq_None_not_Some. intros Hs.
        apply (Hno k). by apply (add_item_lookup_is_Some items i x). }
    split.
    + intros [Hall Hb] j Hj.
      destruct (decide (i = j)) as [->|Hne]; [done|].
      apply Hall. by rewrite lookup_insert_ne in Hj.
    + intros Hall. split.
      * intros j Hj. apply Hall.
        destruct (decide (i = j)) as [->|Hne].
        -- rewrite lookup_insert_eq. eauto.
        -- by rewrite lookup_insert_ne.
      * apply Hall. rewrite lookup_insert_eq. eauto.
Qed.

Lemma fmap_mul_req_sum (a b : gmap string Z) c :
  (λ v, v * c) <$> req_sum a b
  = req_sum ((λ v, v * c) <$> a) ((λ v, v * c) <$> b).
Proof.
  apply map_eq. intros k. rewrite lookup_fmap, !lookup_req_sum, !lookup_fmap.
  destruct (a !! k), (b !! k); simpl; f_equal; lia.
Qed.

Lemma add_item_scale items item_id quantity c :
  add_item items item_id (quantity * c) ∅
  = (λ v, v * c) <$> add_item items item_id quantity ∅.
Proof.
  assert (∀ m : gmap string Z,
            (λ q, q * (quantity * c)) <$> m
            = (λ v, v * c) <$> ((λ q, q * quantity) <$> m)) as Hm.
  { intros m. rewrite <- map_fmap_compose. apply map_fmap_ext.
    intros ? ? _. simpl. lia. }
  destruct (items !! item_id) as [it|] eqn:Hit.
  2: { unfold add_item. by rewrite Hit, fmap_empty. }
  destruct (populated (upgradeCost it)) as [uc|] eqn:Huc.
  - rewrite !(add_item_upgrade items item_id it uc) by done.
    rewrite fmap_mul_req_sum, Hm. f_equal.
    destruct (get_previous_upgrade_level item_id).
    + by rewrite map_fmap_singleton.
    + by rewrite fmap_empty.
  - destruct (populated (recipe it)) as [rc|] eqn:Hrc.
    + by rewrite !(add_item_recipe items item_id it rc), Hm.
    + unfold add_item. by rewrite Hit, Huc, Hrc, fmap_empty.
Qed.

(** X8: the expansion is linear in the quantities: multiplying every
    selected quantity by [c] multiplies every required quantity by [c], and
    leaves the keys as they are. *)
Theorem expansion_scales items selected c :
  get_direct_requirements items ((λ q, q * c) <$> selected)
  = (λ v, v * c) <$> get_direct_requirements items selected.
Proof.
  induction selected as [|i x selected Hi IH] using map_ind.
  - by rewrite fmap_empty, get_direct_requirements_empty, fmap_empty.
  - rewrite fmap_insert.
    rewrite !get_direct_requirements_insert
      by (by rewrite ?lookup_fmap, Hi).
    rewrite !get_direct_requirements_singleton.
    by rewrite fmap_mul_req_sum, IH, add_item_scale.
Qed.

(** X9: when every quantity stored in the catalog's recipes and upgrade
    costs is positive and every selected quantity is positive, every
    quantity of the expansion is positive: the output holds no zero and no
    negative entry. *)
Theorem expansion_positive items selected :
  (∀ item_id it m k v,
     items !! item_id = Some it →
     recipe it = Some m ∨ upgradeCost it = Some m →
     m !! k = Some v → 0 < v) →
  (∀ item_id q, selected !! item_id = Some q → 0 < q) →
  ∀ k v, get_direct_requirements items selected !! k = Some v → 0 < v.
Proof.
  intros Hcat.
  assert (∀ field m, populated field = Some m → field = Some m) as Hpop.
  { intros [m'|] m; simpl; [|done]. by case_decide. }
  assert (∀ item_id q k v,
            0 < q → add_item items item_id q ∅ !! k = Some v → 0 < v)
    as Hone.
  { intros item_id q k v Hq.
    destruct (items !! item_id) as [it|] eqn:Hit.
    2: { unfold add_item. by rewrite Hit, lookup_empty. }
    destruct (populated (upgradeCost it)) as [uc|] eqn:Huc.
    - rewrite (add_item_upgrade items item_id it uc) by done.
      rewrite lookup_req_sum, lookup_fmap.
      assert (∀ w, uc !! k = Some w → 0 < w * q) as Hpos.
      { intros w Hw. apply Z.mul_pos_pos; [|done].
        apply (Hcat item_id it uc k w Hit); [|done]. right. by apply Hpop. }
      destruct (uc !! k) as [w|] eqn:Hw; simpl;
        (destruct (get_previous_upgrade_level item_id) as [p|];
         [destruct (decide (p = k)) as [->|Hne];
          [rewrite lookup_singleton_eq
          |rewrite lookup_singleton_ne by done]
         |rewrite lookup_empty]); simpl; intros [= <-];
        try specialize (Hpos w eq_refl); lia.
    - destruct (populated (recipe it)) as [rc|] eqn:Hrc.
      + rewrite (add_item_recipe items item_id it rc) by done.
        rewrite lookup_fmap. destruct (rc !! k) as [w|] eqn:Hw; [|done].
        simpl. intros [= <-]. apply Z.mul_pos_pos; [|done].
        apply (Hcat item_id it rc k w Hit); [|done]. left. by apply Hpop.
      + unfold add_item. by rewrite Hit, Huc, Hrc, lookup_empty. }
  induction selected as [|i x selected Hi IH] using map_ind; intros Hsel k v.
  - by rewrite get_direct_requirements_empty, lookup_empty.
  - rewrite get_direct_requirements_insert by done.
    rewrite get_direct_requirements_singleton, lookup_req_sum.
    assert (0 < x) as Hx by (apply (Hsel i); apply lookup_insert_eq).
    assert (∀ j q, selected !! j = Some q → 0 < q) as Hsel'.
    { intros j q Hj. apply (Hsel j). rewrite lookup_insert_ne; [done|].
      intros ->. congruence. }
    specialize (IH Hsel' k).
    specialize (Hone i x k).
    destruct (get_direct_requirements items selected !! k) as [a|];
      destruct (add_item items i x ∅ !! k) as [b|]; simpl;
      intros [= <-]; try specialize (IH _ eq_refl);
      try specialize (Hone _ Hx eq_refl); lia.
Qed.

Lemma expansion_positive_witness :
  get_direct_requirements carpentry {[ "table"%string := 2 ]}
    !! "plank"%string = Some 8
  ∧ 0 < 8.
Proof.
  split; [reflexivity|].
  simple refine (expansion_positive carpentry {[ "table"%string := 2 ]}
                   _ _ "plank"%string 8 _);
    [| |reflexivity].
  - intros item_id it m k v Hit Hm Hk.
    unfold carpentry in Hit.
    apply lookup_insert_Some in Hit as [[_ <-]|[_ Hit]];
      [by destruct Hm|].
    apply lookup_insert_Some in Hit as [[_ <-]|[_ Hit]].
    { destruct Hm as [[= <-]|[=]].
      apply lookup_singleton_Some in Hk as [_ <-]. done. }
    apply lookup_singleton_Some in Hit as [_ <-].
    destruct Hm as [[= <-]|[=]].
    apply lookup_singleton_Some in Hk as [_ <-]. done.
  - intros item_id q [_ <-]%lookup_singleton_Some. done.
Defined.

(** ** Catalog loading *)

Lemma supplied_Some item_id k :
  supplied item_id = Some k ↔ item_id = Some k ∧ k ≠ ""%string.
Proof.
  unfold supplied. destruct item_id as [[|c r]|]; simpl; split; try done.
  - by intros [[= <-] ?].
  - by intros [= <-].
  - by intros [? _].
  - by intros [? _].
Qed.

Lemma load_items_snoc files item_id item_data :
  load_items (files ++ [(item_id, item_data)])
  = match supplied item_id with
    | Some k => <[k := item_data]> (load_items files)
    | None => load_items files
    end.
Proof. unfold load_items. by rewrite foldl_app. Qed.

(** X10: the keys of the loaded catalog are the non-empty ids of the files:
    a file without an id, or with an empty id, is left out, so the empty
    string, which [expand_item] refuses, is never a catalog key. *)
Theorem load_items_keys files k :
  is_Some (load_items files !! k)
  ↔ k ≠ ""%string ∧ ∃ item_data, (Some k, item_data) ∈ files.
Proof.
  induction files as [|[item_id item_data] files IH] using rev_ind.
  - unfold load_items. simpl. rewrite lookup_empty. split.
    + by intros [? ?].
    + intros [_ [d Hd]]. by apply elem_of_nil in Hd.
  - rewrite load_items_snoc.
    destruct (supplied item_id) as [j|] eqn:Hs.
    + apply supplied_Some in Hs as [-> Hj].
      destruct (decide (j = k)) as [->|Hne].
      * rewrite lookup_insert_eq. split; [|eauto].
        intros _. split; [done|]. exists item_data.
        apply elem_of_app. right. left.
      * rewrite lookup_insert_ne, IH by done. split.
        -- intros [Hk [d Hd]]. split; [done|]. exists d.
           apply elem_of_app. by left.
        -- intros [Hk [d Hd]]. split; [done|]. exists d.
           apply elem_of_app in Hd as [Hd|Hd]; [done|].
           apply list_elem_of_singleton in Hd. congruence.
    + rewrite IH. split.
      * intros [Hk [d Hd]]. split; [done|]. exists d.
        apply elem_of_app. by left.
      * intros [Hk [d Hd]]. split; [done|]. exists d.
        apply elem_of_app in Hd as [Hd|Hd]; [done|].
        apply list_elem_of_singleton in Hd. injection Hd as <- <-.
        assert (supplied (Some k) = Some k) as Hs'
          by (by apply supplied_Some).
        congruence.
Qed.

(** X11: when several files carry the same id, the catalog holds the record
    of the last of them. *)
Theorem load_items_last_wins earlier later k item_data :
  k ≠ ""%string →
  (∀ other, (Some k, other) ∉ later) →
  load_items (earlier ++ (Some k, item_data) :: later) !! k = Some item_data.
Proof.
  intros Hk. induction later as [|[item_id d] later IH] using rev_ind;
    intros Hlast.
  - rewrite load_items_snoc.
    assert (supplied (Some k) = Some k) as -> by (by apply supplied_Some).
    apply lookup_insert_eq.
  - rewrite app_comm_cons, app_assoc, load_items_snoc.
    assert (load_items (earlier ++ (Some k, item_data) :: later) !! k
            = Some item_data) as Hrec.
    { apply IH. intros other Hin. apply (Hlast other).
      apply elem_of_app. by left. }
    destruct (supplied item_id) as [j|] eqn:Hs; [|done].
    apply supplied_Some in Hs as [-> Hj].
    rewrite lookup_insert_ne; [done|]. intros ->.
    apply (Hlast d). apply elem_of_app. right. left.
Qed.

Lemma load_items_last_wins_witness :
  load_items
    ([(Some "wood"%string, crafted {[ "log"%string := 1 ]})]
       ++ (Some "wood"%string, empty_item) :: [(None, crafted ∅)])
    !! "wood"%string
  = Some empty_item.
Proof.
  apply (load_items_last_wins
           [(Some "wood"%string, crafted {[ "log"%string := 1 ]})]
           [(None, crafted ∅)] "wood"%string empty_item).
  - discriminate.
  - intros other Hin. apply list_elem_of_singleton in Hin. discriminate.
Defined.

(** ** Sorting *)

Lemma insert_sorted_perm {A} (key : A → string) x l :
  insert_sorted key x l ≡ₚ x :: l.
Proof.
  induction l as [|y l IH]; simpl; [done|].
  destruct (String.leb (key x) (key y)); [done|].
  rewrite IH. apply Permutation_swap.
Qed.

Lemma sorted_perm {A} (key : A → string) l : sorted key l ≡ₚ l.
Proof.
  induction l as [|x l IH]; simpl; [done|].
  unfold sorted in *. simpl. by rewrite insert_sorted_perm, IH.
Qed.

Lemma insert_sorted_Sorted {A} (key : A → string) x l :
  Sorted (λ a b, String.leb (key a) (key b) = true) l →
  Sorted (λ a b, String.leb (key a) (key b) = true) (insert_sorted key x l).
Proof.
  induction 1 as [|y l Hl IH Hhd]; simpl.
  - by repeat constructor.
  - destruct (String.leb (key x) (key y)) eqn:Hxy.
    + constructor; [by constructor|]. by constructor.
    + constructor; [done|].
      assert (String.leb (key y) (key x) = true) as Hyx.
      { destruct (String.leb_total (key x) (key y)); congruence. }
      destruct l as [|z l]; simpl in *; [by constructor|].
      destruct (String.leb (key x) (key z)); constructor; [done|].
      by inversion Hhd.
Qed.

Lemma sorted_Sorted {A} (key : A → string) l :
  Sorted (λ a b, String.leb (key a) (key b) = true) (sorted key l).
Proof.
  induction l as [|x l IH]; [constructor|].
  unfold sorted in *. simpl. by apply insert_sorted_Sorted.
Qed.

Lemma Sorted_fmap {A B} (f : A → B) (R1 : A → A → Prop)
    (R : B → B → Prop) l :
  (∀ a b, R1 a b → R (f a) (f b)) →
  Sorted R1 l → Sorted R (f <$> l).
Proof.
  intros Himp. induction 1 as [|x l Hl IH Hhd]; simpl; constructor; [done|].
  destruct Hhd; simpl; constructor. by apply Himp.
Qed.

(** ** The endpoints *)

(** X12: [/api/calculate] always answers with status 200 and a list that
    holds exactly one line per entry of the expansion of the selection (of
    the empty selection when the request has no ['items'] key): the line
    carries the entry's quantity, the display record of its identifier, and
    ['can_expand'] as the negation of [is_base_resource]. *)
Theorem calculate_resources_lines items data :
  ∃ lines,
    calculate_resources items data
    = {| body := ResultBody lines; status := 200 |}
    ∧ length lines
      = size (get_direct_requirements items (default ∅ data))
    ∧ ∀ line,
        line ∈ lines
        ↔ ∃ k v,
            get_direct_requirements items (default ∅ data) !! k = Some v
            ∧ line = {| line_info := get_item_info items k;
                        line_quantity := v;
                        line_can_expand := negb (is_base_resource items k) |}.
Proof.
  eexists. split; [reflexivity|]. split.
  - rewrite length_fmap, (Permutation_length (sorted_perm _ _)).
    apply length_map_to_list.
  - intros line. rewrite list_elem_of_fmap. split.
    + intros ([k v] & -> & Hin). rewrite sorted_perm in Hin.
      apply elem_of_map_to_list in Hin. by exists k, v.
    + intros (k & v & Hk & ->). exists (k, v). split; [done|].
      rewrite sorted_perm. by apply elem_of_map_to_list.
Qed.

(** X13: the lines of [/api/calculate] come in the order of their display
    names. *)
Theorem calculate_resources_sorted items data :
  ∃ lines,
    calculate_resources items data
    = {| body := ResultBody lines; status := 200 |}
    ∧ Sorted
        (λ a b, String.leb (info_name (line_info a))
                           (info_name (line_info b)) = true)
        lines.
Proof.
  eexists. split; [reflexivity|].
  eapply Sorted_fmap; [|apply sorted_Sorted].
  by intros [k v] [k' v'].
Qed.

(** X14: for a non-empty [item_id], [/api/expand] answers as
    [/api/calculate] does for the one-entry selection of that identifier,
    with quantity 1 when the request has no ['quantity'] key. *)
Theorem expand_item_as_calculate items item_id quantity :
  item_id ≠ ""%string →
  expand_item items
    {| req_item_id := Some item_id; req_quantity := quantity |}
  = calculate_resources items (Some {[ item_id := default 1 quantity ]}).
Proof. intros Hne. unfold expand_item. simpl. by destruct item_id. Qed.

Lemma expand_item_as_calculate_witness :
  expand_item carpentry
    {| req_item_id := Some "table"%string; req_quantity := None |}
  = calculate_resources carpentry (Some {[ "table"%string := default 1 None ]}).
Proof. apply (expand_item_as_calculate carpentry "table"). discriminate. Defined.

(** ** The listing *)

Lemma list_item_id item_id item_data x :
  list_item item_id item_data = Some x → listed_id x = item_id.
Proof.
  unfold list_item. repeat case_match; intros [= <-]; done.
Qed.

Lemma list_item_is_Some items item_id it :
  items !! item_id = Some it →
  is_Some (list_item item_id it)
  ↔ is_base_resource items item_id = false
    ∨ get_weapon_upgrade_info item_id (listing_eligible it)
      ≠ NotWeaponUpgrade.
Proof.
  intros Hit. unfold list_item, is_base_resource. rewrite Hit.
  destruct (populated (recipe it)), (populated (upgradeCost it)),
    (get_weapon_upgrade_info item_id (listing_eligible it)); simpl;
    split; eauto; try (by intros [?|?]).
  by intros [? ?].
Qed.

Lemma elem_of_get_items items lower x :
  x ∈ get_items items lower
  ↔ ∃ item_id it, items !! item_id = Some it ∧ list_item item_id it = Some x.
Proof.
  unfold get_items. rewrite sorted_perm, list_elem_of_omap. split.
  - intros ([k it] & Hin%elem_of_map_to_list & Hx). eauto.
  - intros (k & it & Hit & Hx). exists (k, it).
    by rewrite elem_of_map_to_list.
Qed.

(** X15: the listing of [/api/items] holds an entry for a catalog item
    exactly when the item has a populated recipe or upgrade cost, or has a
    [type] other than Modification and an identifier with a tier suffix; and
    it holds at most one entry per identifier. *)
Theorem get_items_listed items lower :
  (∀ item_id,
     (∃ x, x ∈ get_items items lower ∧ listed_id x = item_id)
     ↔ ∃ it, items !! item_id = Some it
             ∧ (is_base_resource items item_id = false
                ∨ get_weapon_upgrade_info item_id (listing_eligible it)
                  ≠ NotWeaponUpgrade))
  ∧ NoDup (listed_id <$> get_items items lower).
Proof.
  split.
  - intros item_id. split.
    + intros (x & (k & it & Hit & Hx)%elem_of_get_items & Hid).
      rewrite (list_item_id _ _ _ Hx) in Hid. subst k.
      exists it. split; [done|].
      apply (list_item_is_Some items item_id it Hit). eauto.
    + intros (it & Hit & Hshown).
      apply (list_item_is_Some items item_id it Hit) in Hshown as [x Hx].
      exists x. split; [|by apply (list_item_id _ _ _ Hx)].
      apply elem_of_get_items. eauto.
  - unfold get_items. rewrite sorted_perm.
    pose proof (NoDup_fst_map_to_list items) as Hnd.
    induction (map_to_list items) as [|[k it] l IH]; simpl; [constructor|].
    apply NoDup_cons in Hnd as [Hk Hnd].
    destruct (list_item k it) as [x|] eqn:Hx; simpl; [|by apply IH].
    apply NoDup_cons. split; [|by apply IH].
    rewrite (list_item_id _ _ _ Hx).
    intros (y & Hy & ([k' it'] & Hin & Hy')%list_elem_of_omap)%list_elem_of_fmap.
    apply list_item_id in Hy'. apply Hk.
    apply list_elem_of_fmap. exists (k', it'). split; [|done].
    simpl. congruence.
Qed.

(** X16: an entry of the listing shows the same name, rarity and type as
    [get_item_info] shows for its identifier, and the same image when the
    record has a [type].  (For a record without [type] the listing does not
    look for a tier suffix, while [get_item_info] does.) *)
Theorem get_items_agrees_with_item_info items lower x :
  x ∈ get_items items lower →
  listed_name x = info_name (get_item_info items (listed_id x))
  ∧ listed_rarity x = info_rarity (get_item_info items (listed_id x))
  ∧ listed_type x = info_type (get_item_info items (listed_id x))
  ∧ (∀ it, items !! listed_id x = Some it → type it ≠ None →
           listed_image x = info_image (get_item_info items (listed_id x))).
Proof.
  intros (k & it & Hit & Hx)%elem_of_get_items.
  assert (x = {| listed_id := k;
                 listed_name := resolve_name k it;
                 listed_image :=
                   resolve_image k it
                     (get_weapon_upgrade_info k (listing_eligible it));
                 listed_rarity := default "Common"%string (rarity it);
                 listed_type := default "Unknown"%string (type it);
                 listed_has_recipe := recipe it |}) as ->.
  { unfold list_item in Hx. repeat case_match; by simplify_eq. }
  simpl. unfold get_item_info. rewrite Hit. simpl.
  repeat split.
  intros it' [= <-] Hty. unfold listing_eligible, weapon_eligible.
  by destruct (type it).
Qed.

Lemma get_items_agrees_with_item_info_witness :
  let x := {| listed_id := "plank"; listed_name := "plank";
              listed_image := "static/images/plank.png";
              listed_rarity := "Common"; listed_type := "Unknown";
              listed_has_recipe := Some {[ "wood"%string := 2 ]} |} in
  listed_name x = info_name (get_item_info carpentry (listed_id x))
  ∧ listed_rarity x = info_rarity (get_item_info carpentry (listed_id x))
  ∧ listed_type x = info_type (get_item_info carpentry (listed_id x))
  ∧ (∀ it, carpentry !! listed_id x = Some it → type it ≠ None →
           listed_image x
           = info_image (get_item_info carpentry (listed_id x))).
Proof.
  apply (get_items_agrees_with_item_info carpentry (λ s, s)).
  apply elem_of_get_items.
  exists "plank"%string, (crafted {[ "wood"%string := 2 ]}).
  split; reflexivity.
Defined.

(** X17: the listing of [/api/items] comes in the order of the lowercased
    names, whatever [str.lower] does to them. *)
Theorem get_items_sorted items lower :
  Sorted
    (λ a b, String.leb (lower (listed_name a)) (lower (listed_name b)) = true)
    (get_items items lower).
Proof. apply sorted_Sorted. Qed.
